(** * cranberry: the shade generator, the palette update and the CSS export

    A shallow embedding of [src/unnamed/part_000] (the richest of the three
    variants of the app): the easing table [SHADING], [getShades],
    [CssVariablesOutput], the palette update [updateAttrForIndex] of
    [ColorPickers], the keys and ids of the pickers, the mix-ratio inputs
    of [ColorPicker], the text colours of [Shades] and the label
    [formatHslStr].

    JavaScript numbers are modelled as real numbers, except a seed's
    [targetIndex], an integer: a fractional one, for which [Array] throws,
    is outside the model.  The colour library
    (chroma-js) is not part of the repository: [getShades] and the export
    are written over its operations taken as parameters, and instantiated
    with a model of colours by their LAB coordinates for the statements
    that depend on what the colour library computes. *)

From Stdlib Require Import Reals Lra ZArith Lia.
From stdpp Require Import base list gmap strings pretty.

Open Scope R_scope.

(* ------------------------------------------------------------------ *)
(** ** The easing table [SHADING] *)

Inductive ShadingFunction := linear | easeIn | easeOut | easeInOut.

(** [SHADING[f](x)], lines 5-10. *)
Definition SHADING (f : ShadingFunction) (x : R) : R :=
  match f with
  | linear => x
  | easeIn => 1 - cos ((x * PI) / 2)
  | easeOut => sin ((x * PI) / 2)
  | easeInOut => (1 - cos (x * PI)) / 2
  end.

(* ------------------------------------------------------------------ *)
(** ** The palette entry [Color] (interface, lines 14-21)

    The type of [hex] is a parameter: [getShades] only ever passes it to
    [chroma(...)]. *)

Record Color (Hex : Type) := mkColor {
  name : string;
  hex : Hex;
  targetIndex : Z;
  shadingFunction : ShadingFunction;
  whiteMixRatio : R;
  blackMixRatio : R;
}.
Arguments mkColor {Hex}.
Arguments name {Hex}.
Arguments hex {Hex}.
Arguments targetIndex {Hex}.
Arguments shadingFunction {Hex}.
Arguments whiteMixRatio {Hex}.
Arguments blackMixRatio {Hex}.

(** [[...Array(n).keys()]]: [Array(n)] throws a [RangeError] unless [n] is
    an array length (an integer in [0, 2^32 - 1]); [None] is the throw. *)
Definition array_keys (n : Z) : option (list Z) :=
  if ((n <? 0) || (4294967295 <? n))%Z then None
  else Some (map Z.of_nat (seq 0 (Z.to_nat n))).

Section Chroma.
(** The chroma-js operations the code calls:
    - [chroma] parses a colour ([chroma(hex)]);
    - [white], [black] are [chroma("#fff")], [chroma("#000")];
    - [mix a b r] is [a.mix(b, r, "lab")];
    - [scale a b t] is [chroma.scale([a, b]).mode("lab")(t)];
    - [css_hsl c] is [c.css("hsl")]. *)
Variables (Hex Col : Type) (chroma : Hex -> Col) (white black : Col).
Variable mix : Col -> Col -> R -> Col.
Variable scale : Col -> Col -> R -> Col.
Variable css_hsl : Col -> string.

(** [getShades], lines 209-232.  [None]: [Array(...)] threw. *)
Definition getShades (color : Color Hex) : option (list Col) :=
  let lightestShade := mix (chroma (hex color)) white (whiteMixRatio color) in
  let scale1 := scale lightestShade (chroma (hex color)) in
  let length := (targetIndex color + 1)%Z in
  match array_keys length with
  | None => None
  | Some indices =>
    let colors := map (fun i =>
      let value := SHADING (shadingFunction color) (IZR i / IZR length) in
      scale1 value) indices in
    let darkestShade := mix (chroma (hex color)) black (blackMixRatio color) in
    let extendedScale := scale (chroma (hex color)) darkestShade in
    let extensionLength := (10 - length)%Z in
    match array_keys extensionLength with
    | None => None
    | Some ks =>
      let extendedIndices := map (fun i => (i + 1)%Z) ks in
      let extendedColors := map (fun i =>
        let value := SHADING linear (IZR i / IZR extensionLength) in
        extendedScale value) extendedIndices in
      Some (colors ++ extendedColors)
    end
  end.

(** The newline character of the template literals. *)
Definition nl : string := String (Ascii.ascii_of_nat 10) EmptyString.

(** One declaration [`  --${color.name}-${i}: ${shade.css("hsl")};`]. *)
Definition decl_line (nm : string) (i : nat) (shade : Col) : string :=
  "  --" +:+ nm +:+ "-" +:+ pretty i +:+ ": " +:+ css_hsl shade +:+ ";".

(** [colors.flatMap(color => getShades(color).map(...))]. *)
Fixpoint css_lines (colors : list (Color Hex)) : option (list string) :=
  match colors with
  | [] => Some []
  | color :: rest =>
    match getShades color with
    | None => None
    | Some shades =>
      match css_lines rest with
      | None => None
      | Some ls => Some (imap (decl_line (name color)) shades ++ ls)
      end
    end
  end.

(** [arr.join(sep)]. *)
Fixpoint join (sep : string) (l : list string) : string :=
  match l with
  | [] => ""
  | [s] => s
  | s :: rest => s +:+ sep +:+ join sep rest
  end.

(** The text [outer] of [CssVariablesOutput], lines 264-274. *)
Definition CssVariablesOutput (colors : list (Color Hex)) : option string :=
  match css_lines colors with
  | None => None
  | Some ls => Some (":root {" +:+ nl +:+ join nl ls +:+ nl +:+ "}")
  end.
End Chroma.

(* ------------------------------------------------------------------ *)
(** ** A model of the colour library in LAB coordinates

    A colour is taken by its CIE LAB coordinates.  [mix a b r] is chroma's
    "lab" interpolator, [a + r * (b - a)] on each coordinate, with the
    ratio used as given.  [scale a b t] follows chroma's two-stop scale:
    [t] is limited to [0, 1], the first stop is returned for [t <= 0], the
    last for [t >= 1], and the LAB interpolation in between.  The seed's
    [hex] is given by its LAB coordinates ([chroma] is the identity).  Not
    modelled: the conversion to sRGB (with its clipping to the gamut) and
    the memo table of [chroma.scale]. *)
Module LabModel.
Record lab := Lab { L : R; A : R; B : R }.

Definition lerp (x y : lab) (f : R) : lab :=
  Lab (L x + f * (L y - L x)) (A x + f * (A y - A x)) (B x + f * (B y - B x)).

Definition mix (x y : lab) (f : R) : lab := lerp x y f.

Definition limit (t lo hi : R) : R := Rmin (Rmax t lo) hi.

Definition scale (x y : lab) (t : R) : lab :=
  let t := limit t 0 1 in
  if Rle_dec t 0 then x
  else if Rlt_dec t 1 then lerp x y t
  else y.

Definition white : lab := Lab 100 0 0.
Definition black : lab := Lab 0 0 0.

Definition shades (c : Color lab) : option (list lab) :=
  getShades lab lab (fun x => x) white black mix scale c.
End LabModel.

(* ------------------------------------------------------------------ *)
(** ** Lemmas about [getShades] *)

Lemma array_keys_ok (n : Z) :
  (0 <= n <= 4294967295)%Z ->
  array_keys n = Some (map Z.of_nat (seq 0 (Z.to_nat n))).
Proof.
  intros Hn. unfold array_keys.
  destruct (Z.ltb_spec n 0); [lia|].
  destruct (Z.ltb_spec 4294967295 n); [lia|]. reflexivity.
Qed.

Lemma map_succ_seq (k s : nat) :
  map (fun i : Z => (i + 1)%Z) (map Z.of_nat (seq s k)) = map Z.of_nat (seq (S s) k).
Proof.
  revert s. induction k as [|k IH]; intros s; simpl; [reflexivity|].
  rewrite IH. f_equal. lia.
Qed.

Lemma IZR_of_nat (n : nat) : IZR (Z.of_nat n) = INR n.
Proof. symmetry. apply INR_IZR_INZ. Qed.

(** The ramp of a seed whose [targetIndex] is in [0, 9]: the eased head
    of [n = targetIndex + 1] samples, then the linear tail of [10 - n]. *)
Lemma getShades_eq (Hex Col : Type) (chroma : Hex -> Col) (white black : Col)
    (mix : Col -> Col -> R -> Col) (scale : Col -> Col -> R -> Col)
    (c : Color Hex) :
  (0 <= targetIndex c <= 9)%Z ->
  getShades Hex Col chroma white black mix scale c =
  Some (map (fun i => scale (mix (chroma (hex c)) white (whiteMixRatio c)) (chroma (hex c))
                (SHADING (shadingFunction c)
                   (INR i / INR (Z.to_nat (targetIndex c + 1)))))
            (seq 0 (Z.to_nat (targetIndex c + 1)))
        ++ map (fun j => scale (chroma (hex c)) (mix (chroma (hex c)) black (blackMixRatio c))
                  (INR j / INR (10 - Z.to_nat (targetIndex c + 1))))
            (seq 1 (10 - Z.to_nat (targetIndex c + 1)))).
Proof.
  intros Ht. unfold getShades.
  rewrite (array_keys_ok (targetIndex c + 1)) by lia.
  rewrite (array_keys_ok (10 - (targetIndex c + 1))) by lia.
  rewrite map_succ_seq, !map_map.
  assert (Hn : IZR (targetIndex c + 1) = INR (Z.to_nat (targetIndex c + 1))).
  { rewrite INR_IZR_INZ, Z2Nat.id by lia. reflexivity. }
  assert (Hm : IZR (10 - (targetIndex c + 1)) = INR (10 - Z.to_nat (targetIndex c + 1))).
  { rewrite INR_IZR_INZ. f_equal. lia. }
  assert (Hk : Z.to_nat (10 - (targetIndex c + 1)) = (10 - Z.to_nat (targetIndex c + 1))%nat)
    by lia.
  rewrite Hk. f_equal. f_equal.
  - apply map_ext. intros i. rewrite Hn, IZR_of_nat. reflexivity.
  - apply map_ext. intros j. simpl. rewrite Hm, IZR_of_nat. reflexivity.
Qed.

(* ------------------------------------------------------------------ *)
(** ** C1: the shape of the ramp *)

(** C1.  For a seed with [targetIndex] in [0, 9], [getShades] returns ten
    colours: the head of [n = targetIndex + 1] samples, entry [i] being the
    LAB gradient from [mix(seed, WHITE, whiteMixRatio)] to the seed at
    [shadingFunction(i / n)], then the tail of [m = 9 - targetIndex]
    samples, entry [j] (from 1 to [m]) being the LAB gradient from the seed
    to [mix(seed, BLACK, blackMixRatio)] at [j / m]. *)
Theorem getShades_head_tail (Hex Col : Type) (chroma : Hex -> Col) (white black : Col)
    (mix : Col -> Col -> R -> Col) (scale : Col -> Col -> R -> Col)
    (c : Color Hex) :
  (0 <= targetIndex c <= 9)%Z ->
  let n := Z.to_nat (targetIndex c + 1) in
  let m := Z.to_nat (9 - targetIndex c) in
  let seed := chroma (hex c) in
  let light := mix seed white (whiteMixRatio c) in
  let dark := mix seed black (blackMixRatio c) in
  exists ramp,
    getShades Hex Col chroma white black mix scale c = Some ramp /\
    length ramp = 10%nat /\
    ramp = map (fun i => scale light seed (SHADING (shadingFunction c) (INR i / INR n)))
             (seq 0 n)
           ++ map (fun j => scale seed dark (INR j / INR m)) (seq 1 m).
Proof.
  intros Ht n m seed light dark.
  assert (Hm : m = (10 - n)%nat) by (subst m n; lia).
  eexists. split; [apply getShades_eq; exact Ht|]. split.
  - rewrite length_app, !length_map, !length_seq. subst n. lia.
  - rewrite Hm. reflexivity.
Qed.

Lemma getShades_head_tail_witness :
  (0 <= targetIndex (mkColor "red" (LabModel.Lab 50 40 30) 5 easeInOut (9/10) (85/100)) <= 9)%Z /\
  exists ramp, LabModel.shades (mkColor "red" (LabModel.Lab 50 40 30) 5 easeInOut (9/10) (85/100))
               = Some ramp /\ length ramp = 10%nat.
Proof.
  split; [simpl; lia|].
  destruct (getShades_head_tail LabModel.lab LabModel.lab (fun x => x)
              LabModel.white LabModel.black LabModel.mix LabModel.scale
              (mkColor "red" (LabModel.Lab 50 40 30) 5 easeInOut (9/10) (85/100)))
    as [ramp [H1 [H2 _]]]; [simpl; lia|].
  exists ramp. split; [exact H1 | exact H2].
Defined.

(* ------------------------------------------------------------------ *)
(** ** The easing functions at the ends of the unit interval *)

Lemma SHADING_0 (f : ShadingFunction) : SHADING f 0 = 0.
Proof.
  destruct f; simpl.
  - reflexivity.
  - replace (0 * PI / 2) with 0 by field. rewrite cos_0. ring.
  - replace (0 * PI / 2) with 0 by field. apply sin_0.
  - rewrite Rmult_0_l, cos_0. field.
Qed.

Lemma SHADING_1 (f : ShadingFunction) : SHADING f 1 = 1.
Proof.
  destruct f; simpl.
  - reflexivity.
  - rewrite Rmult_1_l, cos_PI2. ring.
  - rewrite Rmult_1_l. apply sin_PI2.
  - rewrite Rmult_1_l, cos_PI. field.
Qed.



(* ------------------------------------------------------------------ *)
(** ** C7: the easing functions fix both ends *)

(** C7.  Each of [linear], [easeIn], [easeOut] and [easeInOut] maps 0 to 0
    and 1 to 1, within 1e-9. *)
Theorem SHADING_endpoints (f : ShadingFunction) :
  Rabs (SHADING f 0 - 0) <= 1 / 1000000000 /\
  Rabs (SHADING f 1 - 1) <= 1 / 1000000000.
Proof.
  rewrite SHADING_0, SHADING_1, !Rminus_diag, Rabs_R0. lra.
Qed.

(* ------------------------------------------------------------------ *)
(** ** The LAB model: endpoints and injectivity of the gradient *)

Module LabFacts.
Import LabModel.

Lemma limit_id (t : R) : 0 <= t <= 1 -> limit t 0 1 = t.
Proof.
  intros Ht. unfold limit. rewrite Rmax_left by lra. apply Rmin_left. lra.
Qed.

Lemma scale_0 (x y : lab) : scale x y 0 = x.
Proof.
  unfold scale. rewrite limit_id by lra.
  destruct (Rle_dec 0 0); [reflexivity | lra].
Qed.

Lemma scale_1 (x y : lab) : scale x y 1 = y.
Proof.
  unfold scale. rewrite limit_id by lra.
  destruct (Rle_dec 1 0); [lra|]. destruct (Rlt_dec 1 1); [lra | reflexivity].
Qed.





End LabFacts.

(* ------------------------------------------------------------------ *)
(** ** More facts on the LAB model and on the sample parameters *)

Module LabMore.
Import LabModel LabFacts.



End LabMore.



Lemma nth_error_map_seq {A} (f : nat -> A) (s n k : nat) :
  (k < n)%nat -> nth_error (map f (seq s n)) k = Some (f (s + k)%nat).
Proof.
  intros Hk. rewrite nth_error_map, nth_error_seq.
  destruct (Nat.ltb_spec k n); [reflexivity | lia].
Qed.

(* ------------------------------------------------------------------ *)
(** ** C2: the last entry and the entry at [targetIndex] *)





(* ------------------------------------------------------------------ *)
(** ** C3: the boundary indices *)

(** C3.  With [targetIndex = 9] the tail's index list is empty, so no
    parameter [j / 0] is ever computed, and the ten entries are the eased
    head [i / 10]; with [targetIndex = 0] the head is the single colour at
    the easing of [0 / 1 = 0], exactly the lightest endpoint
    [mix(seed, WHITE, whiteMixRatio)], followed by nine tail samples
    [j / 9]. *)
Theorem shades_boundaries (nm : string) (h : LabModel.lab) (f : ShadingFunction)
    (w b : R) :
  (array_keys (10 - (9 + 1)) = Some [] /\
   LabModel.shades (mkColor nm h 9 f w b) =
     Some (map (fun i => LabModel.scale (LabModel.mix h LabModel.white w) h
                           (SHADING f (INR i / 10))) (seq 0 10))) /\
  LabModel.shades (mkColor nm h 0 f w b) =
    Some (LabModel.mix h LabModel.white w
          :: map (fun j => LabModel.scale h (LabModel.mix h LabModel.black b) (INR j / 9))
               (seq 1 9)).
Proof.
  split; [split; [reflexivity|]|].
  - unfold LabModel.shades. rewrite getShades_eq by (simpl; lia).
    change (Z.to_nat (targetIndex (mkColor nm h 9 f w b) + 1)) with 10%nat.
    change (10 - 10)%nat with 0%nat. simpl (seq 1 0). rewrite app_nil_r.
    f_equal. apply map_ext. intros i. cbn [hex whiteMixRatio shadingFunction].
    replace (INR 10) with 10 by (simpl; ring). reflexivity.
  - unfold LabModel.shades. rewrite getShades_eq by (simpl; lia).
    change (Z.to_nat (targetIndex (mkColor nm h 0 f w b) + 1)) with 1%nat.
    change (10 - 1)%nat with 9%nat. simpl (seq 0 1).
    cbn [map app hex whiteMixRatio shadingFunction blackMixRatio].
    change (INR 0) with 0. rewrite Rdiv_0_l, SHADING_0, LabFacts.scale_0. f_equal. f_equal.
    apply map_ext. intros j. replace (INR 9) with 9 by (simpl; ring). reflexivity.
Qed.

(* ------------------------------------------------------------------ *)
(** ** The two ends of the ramp in the LAB model *)

Lemma shades_first (c : Color LabModel.lab) :
  (0 <= targetIndex c <= 9)%Z ->
  exists ramp, LabModel.shades c = Some ramp /\ length ramp = 10%nat /\
    nth_error ramp 0 = Some (LabModel.mix (hex c) LabModel.white (whiteMixRatio c)).
Proof.
  intros Ht. unfold LabModel.shades. rewrite getShades_eq by exact Ht.
  eexists. split; [reflexivity|]. split.
  - rewrite length_app, !length_map, !length_seq. lia.
  - rewrite nth_error_app1 by (rewrite length_map, length_seq; lia).
    rewrite nth_error_map_seq by lia. simpl.
    rewrite Rdiv_0_l, SHADING_0, LabFacts.scale_0. reflexivity.
Qed.

(* ------------------------------------------------------------------ *)
(** ** C4: mix ratios outside [0, 1] *)

(** A mid grey (lab [(50, 0, 0)]) with a white-mix ratio of -1, and the
    same seed with a ratio of 0. *)
Definition seed_ratio_neg : Color LabModel.lab :=
  mkColor "gray" (LabModel.Lab 50 0 0) 5 easeInOut (-1) (85/100).
Definition seed_ratio_zero : Color LabModel.lab :=
  mkColor "gray" (LabModel.Lab 50 0 0) 5 easeInOut 0 (85/100).

(** C4 fails: a ratio of -1 is not clamped to 0.  For a mid grey, the
    lightest entry of the ramp is lab [(0, 0, 0)], black, instead of the
    seed itself.  Both colours are neutral greys inside the sRGB gamut,
    so the library's clipping to the gamut leaves them as they are. *)
Lemma shades_ratio_not_clamped :
  LabModel.shades seed_ratio_neg <> LabModel.shades seed_ratio_zero.
Proof.
  intros H.
  destruct (shades_first seed_ratio_neg) as [r1 [E1 [_ F1]]]; [simpl; lia|].
  destruct (shades_first seed_ratio_zero) as [r2 [E2 [_ F2]]]; [simpl; lia|].
  rewrite E1, E2 in H. injection H as <-. rewrite F1 in F2. injection F2. intros. lra.
Qed.

(** C4 (as amended).  The mix ratios are used as given, neither clamped
    nor rejected: for any real ratios, a seed with [targetIndex] in
    [0, 9] still gets ten colours, the first being the library's
    [mix(seed, WHITE, whiteMixRatio)] and, when the tail is not empty,
    the last being its [mix(seed, BLACK, blackMixRatio)], each computed
    for the ratio as given.  Of the library, only that a two-stop scale
    returns its first stop at 0 and its last at 1 is used. *)
Theorem getShades_ratio_unclamped (Hex Col : Type) (chroma : Hex -> Col) (white black : Col)
    (mix : Col -> Col -> R -> Col) (scale : Col -> Col -> R -> Col) (c : Color Hex) :
  (forall x y, scale x y 0 = x) -> (forall x y, scale x y 1 = y) ->
  (0 <= targetIndex c <= 9)%Z ->
  exists ramp, getShades Hex Col chroma white black mix scale c = Some ramp /\
    length ramp = 10%nat /\
    nth_error ramp 0 = Some (mix (chroma (hex c)) white (whiteMixRatio c)) /\
    ((targetIndex c <= 8)%Z ->
     nth_error ramp 9 = Some (mix (chroma (hex c)) black (blackMixRatio c))).
Proof.
  intros H0 H1 Ht. rewrite getShades_eq by exact Ht.
  eexists. split; [reflexivity|]. split; [|split].
  - rewrite length_app, !length_map, !length_seq. lia.
  - rewrite nth_error_app1 by (rewrite length_map, length_seq; lia).
    rewrite nth_error_map_seq by lia. simpl.
    rewrite Rdiv_0_l, SHADING_0, H0. reflexivity.
  - intros H8. set (n := Z.to_nat (targetIndex c + 1)).
    rewrite nth_error_app2 by (rewrite length_map, length_seq; subst n; lia).
    rewrite length_map, length_seq.
    rewrite nth_error_map_seq by (subst n; lia).
    replace (1 + (9 - n))%nat with (10 - n)%nat by (subst n; lia).
    rewrite Rdiv_diag.
    + rewrite H1. reflexivity.
    + apply not_0_INR. subst n. lia.
Qed.

Lemma getShades_ratio_unclamped_witness :
  (0 <= targetIndex seed_ratio_neg <= 9)%Z /\
  exists ramp, LabModel.shades seed_ratio_neg = Some ramp /\
    nth_error ramp 0 = Some (LabModel.mix (LabModel.Lab 50 0 0) LabModel.white (-1)).
Proof.
  split; [simpl; lia|].
  destruct (getShades_ratio_unclamped LabModel.lab LabModel.lab (fun x => x)
              LabModel.white LabModel.black LabModel.mix LabModel.scale seed_ratio_neg
              LabFacts.scale_0 LabFacts.scale_1)
    as [ramp [E [_ [H0 _]]]]; [simpl; lia|].
  exists ramp. split; [exact E | exact H0].
Defined.

(* ------------------------------------------------------------------ *)
(** ** C8: the seed colour among the samples *)





(* ------------------------------------------------------------------ *)
(** ** The palette as JavaScript objects in a store

    [palette] is a JavaScript array of entry objects.  The store maps
    locations to objects: an array, or an entry object mapping its keys
    to values.  An array element is [null] or a reference to an object;
    a hole (an index below the length with no element) is [None] in the
    list of elements.  A JavaScript number is a real number, [NaN] or an
    infinity; the value of an entry's key is a string, a number or
    [null]. *)

Inductive jsnum := NaN | Num (r : R) | Infinity (negative : bool).

Inductive value := VStr (s : string) | VNum (x : jsnum) | VNull.

Inductive elem := ENull | ERef (l : positive).

Inductive obj :=
  | OArr (elems : list (option elem))
  | OEnt (fields : gmap string value).

Abbreviation heap := (gmap positive obj).

(** An array slot read through the store: [None] a hole, [Some None]
    [null], [Some (Some fs)] an entry object with keys [fs]. *)
Abbreviation slot := (option (option (gmap string value))).

Module Store.
(** Allocation of a new object at a fresh location. *)
Definition alloc (h : heap) (o : obj) : heap * positive :=
  let l := fresh (dom h) in (<[l := o]> h, l).

Definition read_entry (h : heap) (l : positive) : option (gmap string value) :=
  match h !! l with Some (OEnt fs) => Some fs | _ => None end.

Definition read_arr (h : heap) (l : positive) : option (list (option elem)) :=
  match h !! l with Some (OArr els) => Some els | _ => None end.

(** A value written by [JSON.stringify] and read back by [JSON.parse]:
    [NaN] and the infinities are written as [null]; strings, finite
    numbers and [null] come back as they were. *)
Definition json_value (v : value) : value :=
  match v with
  | VNum NaN | VNum (Infinity _) => VNull
  | _ => v
  end.

(** The JSON round trip of an entry object: each value round-tripped. *)
Definition json_entry (fs : gmap string value) : gmap string value :=
  json_value <$> fs.

(** The elements [JSON.parse(JSON.stringify(...))] rebuilds: an entry
    object becomes a new object holding its round-tripped values; a hole
    and [null] both become [null] (JSON writes a hole as [null]).
    [None]: an element refers to an object that is not an entry, which a
    palette does not hold. *)
Fixpoint clone_elems (h : heap) (els : list (option elem))
    : option (heap * list (option elem)) :=
  match els with
  | [] => Some (h, [])
  | Some (ERef l) :: rest =>
    match read_entry h l with
    | None => None
    | Some fs =>
      let '(h1, l') := alloc h (OEnt (json_entry fs)) in
      match clone_elems h1 rest with
      | Some (h2, ls) => Some (h2, Some (ERef l') :: ls)
      | None => None
      end
    end
  | _ :: rest =>
    match clone_elems h rest with
    | Some (h', ls) => Some (h', Some ENull :: ls)
    | None => None
    end
  end.

(** [JSON.parse(JSON.stringify(palette))]: a new array of new entries. *)
Definition json_clone (h : heap) (p : positive) : option (heap * positive) :=
  match read_arr h p with
  | None => None
  | Some els =>
    match clone_elems h els with
    | None => None
    | Some (h1, ls) => Some (alloc h1 (OArr ls))
    end
  end.

(** Whether [i] is an array index, [0 <= i < 2^32 - 1]; any other key
    names a plain property, not an element. *)
Definition is_array_index (i : Z) : bool := ((0 <=? i) && (i <? 4294967295))%Z.

(** [arr[i]] on the elements; [None] is [undefined]. *)
Definition js_index_get {A} (els : list (option A)) (i : Z) : option A :=
  if is_array_index i then
    match els !! Z.to_nat i with Some (Some x) => Some x | _ => None end
  else None.

(** The elements after [arr[i] = v]: the slot is replaced, or the array
    grows with holes up to [i]; a key that is not an array index only
    adds a property, leaving the elements as they are. *)
Definition js_index_set {A} (els : list (option A)) (i : Z) (v : option A)
    : list (option A) :=
  if is_array_index i then
    if (Z.to_nat i <? length els)%nat then <[Z.to_nat i := v]> els
    else els ++ replicate (Z.to_nat i - length els) None ++ [v]
  else els.

(** The keys of [{...x}] for an element [x]: none when [x] is
    [undefined] or [null]. *)
Definition spread_base (h : heap) (e : option elem) : option (gmap string value) :=
  match e with Some (ERef l) => read_entry h l | _ => Some ∅ end.

(** The keys [{...x}] copies from what [arr[i]] reads ([undefined],
    [null] or an entry). *)
Definition keys_of (x : option (option (gmap string value))) : gmap string value :=
  match x with Some (Some fs) => fs | _ => ∅ end.

(** [updateAttrForIndex(index, attr, value)], lines 76-87: the new
    palette and the store after [setPalette(newPalette)]; [None]: the
    code throws. *)
Definition updateAttrForIndex (h : heap) (palette : positive) (index : Z)
    (attr : string) (v : value) : option (heap * positive) :=
  match json_clone h palette with
  | None => None
  | Some (h1, newPalette) =>
    match read_arr h1 newPalette with
    | None => None
    | Some els =>
      match spread_base h1 (js_index_get els index) with
      | None => None
      | Some base =>
        let '(h2, l) := alloc h1 (OEnt (<[attr := v]> base)) in
        Some (<[newPalette := OArr (js_index_set els index (Some (ERef l)))]> h2,
              newPalette)
      end
    end
  end.

(** What a palette location holds: its slots. *)
Definition read_slot (h : heap) (e : option elem) : option slot :=
  match e with
  | None => Some None
  | Some ENull => Some (Some None)
  | Some (ERef l) =>
    match read_entry h l with Some fs => Some (Some (Some fs)) | None => None end
  end.

Definition read_slots (h : heap) (p : positive) : option (list slot) :=
  match read_arr h p with
  | None => None
  | Some els => mapM (read_slot h) els
  end.

(** The entries of a palette, [None] where a slot holds no entry (a hole
    or [null]). *)
Definition read_palette (h : heap) (p : positive)
    : option (list (option (gmap string value))) :=
  match read_slots h p with
  | None => None
  | Some ss => Some (map mjoin ss)
  end.

(** The slot the JSON round trip makes of a slot. *)
Definition json_slot (s : slot) : slot :=
  match s with
  | Some (Some fs) => Some (Some (json_entry fs))
  | _ => Some None
  end.

(** A value the JSON round trip keeps: neither [NaN] nor an infinity. *)
Definition json_safe_value (v : value) : bool :=
  match v with
  | VNum NaN | VNum (Infinity _) => false
  | _ => true
  end.

End Store.

Module StoreFacts.
Import Store.

Lemma alloc_fresh (h : heap) (o : obj) : h !! (alloc h o).2 = None.
Proof. apply not_elem_of_dom. apply is_fresh. Qed.

Lemma alloc_sub (h : heap) (o : obj) : h ⊆ (alloc h o).1.
Proof. apply insert_subseteq. apply (alloc_fresh h o). Qed.

Lemma alloc_lookup (h : heap) (o : obj) : (alloc h o).1 !! (alloc h o).2 = Some o.
Proof. apply lookup_insert_eq. Qed.

Lemma read_slot_weaken (h h' : heap) (e : option elem) r :
  h ⊆ h' -> read_slot h e = Some r -> read_slot h' e = Some r.
Proof.
  intros Hs. destruct e as [[|l]|]; simpl; [auto| |auto].
  unfold read_entry. destruct (h !! l) as [o|] eqn:E; [|discriminate].
  rewrite (lookup_weaken h h' l o E Hs). auto.
Qed.

Lemma read_slots_weaken_all (h h' : heap) els ss :
  h ⊆ h' -> Forall2 (fun e r => read_slot h e = Some r) els ss ->
  Forall2 (fun e r => read_slot h' e = Some r) els ss.
Proof.
  intros Hs Hf. eapply Forall2_impl; [exact Hf|].
  intros e r. apply read_slot_weaken. exact Hs.
Qed.


(** The JSON round trip copies every entry to a new object, round-tripping
    its values, and turns holes into [null]. *)
Lemma clone_elems_spec (els : list (option elem)) :
  forall (h : heap) ss, Forall2 (fun e r => read_slot h e = Some r) els ss ->
  exists h' ls, clone_elems h els = Some (h', ls) /\ h ⊆ h' /\
    Forall2 (fun e r => read_slot h' e = Some r) ls (map json_slot ss).
Proof.
  induction els as [|e rest IH]; intros h ss Hf.
  - inversion Hf; subst. exists h, []. split; [reflexivity|]. split; [reflexivity|].
    constructor.
  - inversion Hf as [|? r ? ss' He Hrest]; subst. destruct e as [[|l]|].
    + simpl in He. injection He as <-. cbn [clone_elems].
      destruct (IH h ss') as (h2 & ls & Ec & Hs2 & Hls); [exact Hrest|].
      rewrite Ec. exists h2, (Some ENull :: ls). split; [reflexivity|].
      split; [exact Hs2|]. constructor; [reflexivity | exact Hls].
    + simpl in He. cbn [clone_elems].
      destruct (read_entry h l) as [fs|] eqn:Er; [|discriminate].
      injection He as <-.
      destruct (alloc h (OEnt (json_entry fs))) as [h1 l'] eqn:Ea.
      pose proof (alloc_sub h (OEnt (json_entry fs))) as Hs1. rewrite Ea in Hs1.
      pose proof (alloc_lookup h (OEnt (json_entry fs))) as Hl1. rewrite Ea in Hl1.
      destruct (IH h1 ss') as (h2 & ls & Ec & Hs2 & Hls);
        [apply (read_slots_weaken_all h); assumption|].
      rewrite Ec. exists h2, (Some (ERef l') :: ls). split; [reflexivity|].
      split; [etrans; eassumption|]. constructor; [|exact Hls].
      simpl. unfold read_entry. simpl in Hl1.
      rewrite (lookup_weaken h1 h2 l' _ Hl1 Hs2). reflexivity.
    + simpl in He. injection He as <-. cbn [clone_elems].
      destruct (IH h ss') as (h2 & ls & Ec & Hs2 & Hls); [exact Hrest|].
      rewrite Ec. exists h2, (Some ENull :: ls). split; [reflexivity|].
      split; [exact Hs2|]. constructor; [reflexivity | exact Hls].
Qed.

Lemma js_index_get_forall2 (h : heap) ls ss (i : Z) :
  Forall2 (fun e r => read_slot h e = Some r) ls ss ->
  spread_base h (js_index_get ls i) = Some (keys_of (js_index_get ss i)).
Proof.
  intros Hf. unfold js_index_get. destruct (is_array_index i); [|reflexivity].
  rewrite Forall2_lookup in Hf. specialize (Hf (Z.to_nat i)).
  inversion Hf as [e r He E1 E2|E1 E2].
  - destruct e as [[|l]|]; simpl in He.
    + injection He as <-. reflexivity.
    + destruct (read_entry h l) as [fs|] eqn:Er; [|discriminate].
      injection He as <-. simpl. exact Er.
    + injection He as <-. reflexivity.
  - reflexivity.
Qed.

Lemma js_index_set_forall2 {A B} (P : option A -> option B -> Prop)
    (ls : list (option A)) (rs : list (option B)) i x y :
  Forall2 P ls rs -> P None None -> P x y ->
  Forall2 P (js_index_set ls i x) (js_index_set rs i y).
Proof.
  intros Hf Hn Hxy. unfold js_index_set.
  rewrite (Forall2_length _ _ _ Hf).
  destruct (is_array_index i); [|exact Hf].
  destruct (Nat.ltb_spec (Z.to_nat i) (length rs)).
  - apply Forall2_insert; assumption.
  - apply Forall2_app; [exact Hf|]. apply Forall2_app.
    + apply Forall2_replicate. exact Hn.
    + constructor; [exact Hxy | constructor].
Qed.
End StoreFacts.

(** Facts on the JSON round trip. *)
Module JsonFacts.
Import Store.

Lemma json_value_idem (v : value) : json_value (json_value v) = json_value v.
Proof. destruct v as [s|[|r|b]|]; reflexivity. Qed.

Lemma json_value_safe (v : value) : json_safe_value v = true -> json_value v = v.
Proof. destruct v as [s|[|r|b]|]; simpl; congruence. Qed.

Lemma json_entry_idem (fs : gmap string value) :
  json_entry (json_entry fs) = json_entry fs.
Proof.
  unfold json_entry. rewrite <- map_fmap_compose. apply map_fmap_ext.
  intros k x _. apply json_value_idem.
Qed.

Lemma json_entry_insert (fs : gmap string value) (a : string) (v : value) :
  json_entry (<[a := v]> fs) = <[a := json_value v]> (json_entry fs).
Proof. apply fmap_insert. Qed.

Lemma json_entry_empty : json_entry ∅ = ∅.
Proof. apply fmap_empty. Qed.


Lemma json_slot_idem (s : slot) : json_slot (json_slot s) = json_slot s.
Proof. destruct s as [[fs|]|]; simpl; [rewrite json_entry_idem|..]; reflexivity. Qed.



Lemma json_slots_idem (ss : list slot) :
  map json_slot (map json_slot ss) = map json_slot ss.
Proof. rewrite map_map. apply map_ext. apply json_slot_idem. Qed.

Lemma lookup_map {A B} (f : A -> B) (l : list A) (k : nat) :
  map f l !! k = f <$> l !! k.
Proof. apply list_lookup_fmap. Qed.

Lemma map_insert_list {A B} (f : A -> B) (l : list A) (k : nat) (x : A) :
  map f (<[k := x]> l) = <[k := f x]> (map f l).
Proof. apply list_fmap_insert. Qed.

(** The keys [{...arr[k]}] copies after the round trip. *)
Lemma keys_of_json (s : option slot) :
  keys_of (mjoin (json_slot <$> s)) = json_entry (keys_of (mjoin s)).
Proof.
  destruct s as [[[fs|]|]|]; simpl; try reflexivity; symmetry; apply json_entry_empty.
Qed.
End JsonFacts.

(** The effect of [updateAttrForIndex] on the slots of a palette, for
    any index: it allocates a new array, leaves every existing object as
    it was, and the new palette is the JSON round trip of the old one
    with [arr[index] = {...arr[index], [attr]: value}] applied. *)
Lemma updateAttrForIndex_spec (h : heap) (p : positive) ss (i : Z) (attr : string)
    (v : value) :
  Store.read_slots h p = Some ss ->
  exists h' q, Store.updateAttrForIndex h p i attr v = Some (h', q) /\
    h ⊆ h' /\ h !! q = None /\
    Store.read_slots h' q =
      Some (Store.js_index_set (map Store.json_slot ss) i
              (Some (Some (<[attr := v]>
                 (Store.keys_of (Store.js_index_get (map Store.json_slot ss) i)))))).
Proof.
  intros Hr. unfold Store.read_slots in Hr.
  destruct (Store.read_arr h p) as [els|] eqn:Ea; [|discriminate].
  apply mapM_Some in Hr.
  destruct (StoreFacts.clone_elems_spec els h ss Hr) as (hc & ls & Ec & Hsc & Hls).
  unfold Store.updateAttrForIndex, Store.json_clone. rewrite Ea, Ec.
  pose proof (StoreFacts.alloc_fresh hc (OArr ls)) as Hq.
  pose proof (StoreFacts.alloc_sub hc (OArr ls)) as Hs1.
  pose proof (StoreFacts.alloc_lookup hc (OArr ls)) as Hq1.
  destruct (Store.alloc hc (OArr ls)) as [h1 q] eqn:E1. simpl in Hq, Hs1, Hq1.
  unfold Store.read_arr at 1. rewrite Hq1.
  assert (Hls1 : Forall2 (fun e r => Store.read_slot h1 e = Some r) ls
                   (map Store.json_slot ss))
    by (apply (StoreFacts.read_slots_weaken_all hc); assumption).
  rewrite (StoreFacts.js_index_get_forall2 h1 ls _ i Hls1).
  set (ent := <[attr := v]> (Store.keys_of (Store.js_index_get (map Store.json_slot ss) i))).
  pose proof (StoreFacts.alloc_fresh h1 (OEnt ent)) as Hl.
  pose proof (StoreFacts.alloc_sub h1 (OEnt ent)) as Hs2.
  pose proof (StoreFacts.alloc_lookup h1 (OEnt ent)) as Hl2.
  destruct (Store.alloc h1 (OEnt ent)) as [h2 l] eqn:E2. simpl in Hl, Hs2, Hl2.
  assert (Hql : q <> l) by (intros ->; rewrite Hq1 in Hl; discriminate).
  assert (Hc3 : hc ⊆ <[q := OArr (Store.js_index_set ls i (Some (ERef l)))]> h2).
  { apply insert_subseteq_r; [exact Hq|]. etrans; eassumption. }
  assert (Hhq : h !! q = None).
  { destruct (h !! q) as [o|] eqn:Eo; [|reflexivity].
    rewrite (lookup_weaken h hc q o Eo Hsc) in Hq. discriminate. }
  exists (<[q := OArr (Store.js_index_set ls i (Some (ERef l)))]> h2), q.
  split; [reflexivity|]. split; [|split; [exact Hhq|]].
  - etrans; [exact Hsc | exact Hc3].
  - unfold Store.read_slots, Store.read_arr. rewrite lookup_insert_eq.
    apply mapM_Some. apply StoreFacts.js_index_set_forall2.
    + apply (StoreFacts.read_slots_weaken_all hc); assumption.
    + reflexivity.
    + simpl. unfold Store.read_entry. rewrite lookup_insert_ne by exact Hql.
      rewrite Hl2. reflexivity.
Qed.

Lemma js_index_in_range {A} (rs : list (option A)) (k : nat) x :
  (k < length rs)%nat -> (Z.of_nat (length rs) <= 4294967295)%Z ->
  Store.js_index_get rs (Z.of_nat k) = mjoin (rs !! k) /\
  Store.js_index_set rs (Z.of_nat k) x = <[k := x]> rs.
Proof.
  intros Hk Hl. unfold Store.js_index_get, Store.js_index_set, Store.is_array_index.
  replace ((0 <=? Z.of_nat k) && (Z.of_nat k <? 4294967295))%Z with true
    by (symmetry; apply andb_true_iff; split; [apply Z.leb_le | apply Z.ltb_lt]; lia).
  rewrite Nat2Z.id. split.
  - destruct (rs !! k) as [[y|]|]; reflexivity.
  - destruct (Nat.ltb_spec k (length rs)); [reflexivity | lia].
Qed.


(** An update at an index in range: the new palette is the round trip of
    the old one, with slot [k] holding an entry that has [attr] set to
    [v] and the round-tripped other keys of the old entry [k]. *)
Lemma updateAttrForIndex_in_range (h : heap) (p : positive) ss (k : nat)
    (attr : string) (v : value) :
  Store.read_slots h p = Some ss ->
  (k < length ss)%nat -> (Z.of_nat (length ss) <= 4294967295)%Z ->
  exists h' q, Store.updateAttrForIndex h p (Z.of_nat k) attr v = Some (h', q) /\
    h ⊆ h' /\ h !! q = None /\
    Store.read_slots h' q =
      Some (<[k := Some (Some (<[attr := v]>
                   (Store.json_entry (Store.keys_of (mjoin (ss !! k))))))]>
              (map Store.json_slot ss)).
Proof.
  intros Hr Hk Hl.
  destruct (updateAttrForIndex_spec h p ss (Z.of_nat k) attr v Hr)
    as (h' & q & E & Hs & Hq & Hr').
  destruct (js_index_in_range (map Store.json_slot ss) k
              (Some (Some (<[attr := v]> (Store.keys_of
                 (Store.js_index_get (map Store.json_slot ss) (Z.of_nat k))))))
              ltac:(rewrite length_map; exact Hk) ltac:(rewrite length_map; exact Hl))
    as [Hg Hset].
  rewrite Hset, Hg, JsonFacts.lookup_map, JsonFacts.keys_of_json in Hr'.
  exists h', q. split; [exact E|]. split; [exact Hs|]. split; [exact Hq | exact Hr'].
Qed.

(** The same, on the entries of the palette. *)
Lemma updateAttrForIndex_entry (h : heap) (p : positive) rs (k : nat)
    (attr : string) (v : value) :
  Store.read_palette h p = Some rs ->
  (k < length rs)%nat -> (Z.of_nat (length rs) <= 4294967295)%Z ->
  exists h' q rs' e, Store.updateAttrForIndex h p (Z.of_nat k) attr v = Some (h', q) /\
    Store.read_palette h' q = Some rs' /\ rs' !! k = Some (Some e) /\
    e !! attr = Some v.
Proof.
  intros Hr Hk Hl. unfold Store.read_palette in Hr.
  destruct (Store.read_slots h p) as [ss|] eqn:Es; [|discriminate].
  injection Hr as <-. rewrite length_map in Hk, Hl.
  destruct (updateAttrForIndex_in_range h p ss k attr v Es Hk Hl)
    as (h' & q & E & _ & _ & Hr').
  eexists h', q, _, _. split; [exact E|].
  unfold Store.read_palette. rewrite Hr'. split; [reflexivity|].
  split.
  - rewrite JsonFacts.lookup_map, list_lookup_insert_eq
      by (rewrite length_map; exact Hk).
    reflexivity.
  - apply lookup_insert_eq.
Qed.

(* ------------------------------------------------------------------ *)
(** ** The default palette in the store *)

Definition shading_name (f : ShadingFunction) : string :=
  match f with
  | linear => "linear" | easeIn => "easeIn"
  | easeOut => "easeOut" | easeInOut => "easeInOut"
  end.

(** The object literal of an entry. *)
Definition entry_obj (c : Color string) : gmap string value :=
  <["name" := VStr (name c)]> (<["hex" := VStr (hex c)]>
  (<["targetIndex" := VNum (Num (IZR (targetIndex c)))]>
  (<["shadingFunction" := VStr (shading_name (shadingFunction c))]>
  (<["whiteMixRatio" := VNum (Num (whiteMixRatio c))]>
  (<["blackMixRatio" := VNum (Num (blackMixRatio c))]> ∅))))).

(** [DEFAULT_COLORS], lines 23-46. *)
Definition DEFAULT_COLORS : list (Color string) :=
  mkColor "gray" "#302c2c" 7 easeOut (9/10) (85/100) ::
  map (fun '(nm, hx) => mkColor nm hx 5 easeInOut (9/10) (85/100))
    [("yellow", "#ffdc40"); ("red", "#e4593e"); ("teal", "#18aa96");
     ("blue", "#45a4f9"); ("green", "#79cb3a")].

Fixpoint alloc_entries (h : heap) (cs : list (Color string)) : heap * list (option elem) :=
  match cs with
  | [] => (h, [])
  | c :: rest =>
    let '(h1, l) := Store.alloc h (OEnt (entry_obj c)) in
    let '(h2, ls) := alloc_entries h1 rest in
    (h2, Some (ERef l) :: ls)
  end.

(** The store holding [[...DEFAULT_COLORS]], and the palette's location. *)
Definition default_store : heap * positive :=
  let '(h, ls) := alloc_entries ∅ DEFAULT_COLORS in Store.alloc h (OArr ls).

(** The slots of the default palette. *)
Definition default_slots : list slot :=
  map (fun c => Some (Some (entry_obj c))) DEFAULT_COLORS.


Lemma default_store_palette :
  Store.read_palette default_store.1 default_store.2 =
    Some (map (fun c => Some (entry_obj c)) DEFAULT_COLORS).
Proof. reflexivity. Qed.



(* ------------------------------------------------------------------ *)
(** ** C6: the update replaces one field of one entry *)




(* ------------------------------------------------------------------ *)
(** ** C5: indexes outside the palette *)




(* ------------------------------------------------------------------ *)
(** ** The mix-ratio inputs of [ColorPicker] *)

(** JavaScript truthiness of a number: [0], [-0] and [NaN] are falsy. *)
Definition truthy (x : jsnum) : bool :=
  match x with
  | NaN => false
  | Num r => if Req_EM_T r 0 then false else true
  | Infinity _ => true
  end.

(** [x || d] on numbers. *)
Definition js_or (x d : jsnum) : jsnum := if truthy x then x else d.

(** [Number(e.currentTarget.value) || 0.9], lines 185 and 193, for a
    given conversion [Number] of the input text. *)
Definition ratio_input (Number : string -> jsnum) (s : string) : jsnum :=
  js_or (Number s) (Num (9/10)).

(** [setWhiteMixRatio(...)] / [setBlackMixRatio(...)] of entry [i]: the
    [onChange] handler of a ratio input ([attr] is [whiteMixRatio] or
    [blackMixRatio]), through [updateAttrForIndex]. *)
Definition onRatioChange (Number : string -> jsnum) (attr : string) (h : heap)
    (p : positive) (i : Z) (s : string) : option (heap * positive) :=
  Store.updateAttrForIndex h p i attr (VNum (ratio_input Number s)).

(** A conversion of input text to a number, for plain decimal text:
    surrounding white space is dropped, the empty text is 0, then an
    optional sign, digits with an optional fraction, or [Infinity]; other
    text (exponents, [0x] forms) gives [NaN] here. *)
Definition is_ws (c : Ascii.ascii) : bool :=
  match Ascii.nat_of_ascii c with 9 | 10 | 11 | 12 | 13 | 32 => true | _ => false end%nat.

Fixpoint drop_ws (cs : list Ascii.ascii) : list Ascii.ascii :=
  match cs with c :: rest => if is_ws c then drop_ws rest else cs | [] => [] end.

Definition trim (cs : list Ascii.ascii) : list Ascii.ascii :=
  rev (drop_ws (rev (drop_ws cs))).

Definition digit_val (c : Ascii.ascii) : option Z :=
  let n := Ascii.nat_of_ascii c in
  if ((48 <=? n) && (n <=? 57))%nat then Some (Z.of_nat n - 48)%Z else None.

(** The value and count of a run of digits. *)
Fixpoint digits (acc : Z) (k : nat) (cs : list Ascii.ascii) : option (Z * nat) :=
  match cs with
  | [] => Some (acc, k)
  | c :: rest =>
    match digit_val c with
    | Some d => digits (acc * 10 + d)%Z (S k) rest
    | None => None
    end
  end.

Fixpoint split_dot (cs : list Ascii.ascii) : list Ascii.ascii * option (list Ascii.ascii) :=
  match cs with
  | [] => ([], None)
  | c :: rest =>
    if Ascii.eqb c (Ascii.ascii_of_nat 46) then ([], Some rest)
    else let '(a, b) := split_dot rest in (c :: a, b)
  end.

Definition unsigned_decimal (cs : list Ascii.ascii) : jsnum :=
  if decide (cs = String.list_ascii_of_string "Infinity")
  then Infinity false else
  match split_dot cs with
  | (ip, None) =>
    match ip, digits 0 0 ip with
    | _ :: _, Some (v, _) => Num (IZR v)
    | _, _ => NaN
    end
  | (ip, Some fr) =>
    match digits 0 0 ip, digits 0 0 fr with
    | Some (v, a), Some (w, b) =>
      if (a + b =? 0)%nat then NaN else Num (IZR v + IZR w / IZR (10 ^ Z.of_nat b))
    | _, _ => NaN
    end
  end.

Definition js_Number (s : string) : jsnum :=
  match trim (String.list_ascii_of_string s) with
  | [] => Num 0
  | c :: rest =>
    if Ascii.eqb c (Ascii.ascii_of_nat 45) then
      match unsigned_decimal rest with
      | Num r => Num (- r) | Infinity b => Infinity (negb b) | NaN => NaN
      end
    else if Ascii.eqb c (Ascii.ascii_of_nat 43) then unsigned_decimal rest
    else unsigned_decimal (c :: rest)
  end.

Lemma js_Number_0 : js_Number "0" = Num 0.
Proof. reflexivity. Qed.

Lemma js_Number_empty : js_Number "" = Num 0.
Proof. reflexivity. Qed.

(* ------------------------------------------------------------------ *)
(** ** C10: a mix ratio of 0 cannot be entered *)

Lemma ratio_input_nonzero (Number : string -> jsnum) (s : string) :
  ratio_input Number s <> Num 0.
Proof.
  unfold ratio_input, js_or, truthy.
  destruct (Number s) as [|r|b].
  - intros H. injection H. lra.
  - destruct (Req_EM_T r 0) as [_|Hr].
    + intros H. injection H. lra.
    + intros H. injection H. exact Hr.
  - discriminate.
Qed.

(** C10.  Whatever [Number] gives, [Number(text) || 0.9] is never 0: the
    text "0", whose number is 0, and the empty text both give 0.9, and an
    edit of a mix-ratio field of an entry in range stores a value that is
    not 0, although 0 is a valid ratio. *)
Theorem ratio_input_zero_unreachable (Number : string -> jsnum) :
  Number "0" = Num 0 -> Number "" = Num 0 ->
  ratio_input Number "0" = Num (9/10) /\ ratio_input Number "" = Num (9/10) /\
  (forall s, ratio_input Number s <> Num 0) /\
  (forall (attr : string) (h : heap) (p : positive) rs (k : nat) (s : string),
     (attr = "whiteMixRatio" \/ attr = "blackMixRatio") ->
     Store.read_palette h p = Some rs -> (k < length rs)%nat ->
     (Z.of_nat (length rs) <= 4294967295)%Z ->
     exists h' q rs' e, onRatioChange Number attr h p (Z.of_nat k) s = Some (h', q) /\
       Store.read_palette h' q = Some rs' /\ rs' !! k = Some (Some e) /\
       e !! attr = Some (VNum (ratio_input Number s)) /\
       e !! attr <> Some (VNum (Num 0))).
Proof.
  intros H0 He. split; [|split; [|split]].
  - unfold ratio_input, js_or. rewrite H0. simpl.
    destruct (Req_EM_T 0 0); [reflexivity | congruence].
  - unfold ratio_input, js_or. rewrite He. simpl.
    destruct (Req_EM_T 0 0); [reflexivity | congruence].
  - apply ratio_input_nonzero.
  - intros attr h p rs k s _ Hr Hk Hl. unfold onRatioChange.
    destruct (updateAttrForIndex_entry h p rs k attr (VNum (ratio_input Number s)) Hr Hk Hl)
      as (h' & q & rs' & e & E & Hr' & Hk' & Ha).
    exists h', q, rs', e. split; [exact E|]. split; [exact Hr'|]. split; [exact Hk'|].
    rewrite Ha. split; [reflexivity|].
    intros Hv. injection Hv. apply ratio_input_nonzero.
Qed.

Lemma ratio_input_zero_unreachable_witness :
  ratio_input js_Number "0" = Num (9/10) /\ ratio_input js_Number "" = Num (9/10).
Proof.
  destruct (ratio_input_zero_unreachable js_Number eq_refl eq_refl)
    as [A [B _]].
  split; [exact A | exact B].
Defined.

(* ------------------------------------------------------------------ *)
(** ** C9: the shape of the CSS export *)

Lemma getShades_length (Hex Col : Type) (chroma : Hex -> Col) (white black : Col)
    (mix : Col -> Col -> R -> Col) (scale : Col -> Col -> R -> Col) (c : Color Hex) :
  (0 <= targetIndex c <= 9)%Z ->
  exists sh, getShades Hex Col chroma white black mix scale c = Some sh /\
    length sh = 10%nat.
Proof.
  intros Ht. rewrite getShades_eq by exact Ht. eexists. split; [reflexivity|].
  rewrite length_app, !length_map, !length_seq. lia.
Qed.

Lemma css_lines_spec (Hex Col : Type) (chroma : Hex -> Col) (white black : Col)
    (mix : Col -> Col -> R -> Col) (scale : Col -> Col -> R -> Col)
    (css_hsl : Col -> string) (colors : list (Color Hex)) :
  Forall (fun c => (0 <= targetIndex c <= 9)%Z) colors ->
  exists lines shades,
    css_lines Hex Col chroma white black mix scale css_hsl colors = Some lines /\
    Forall2 (fun c sh => getShades Hex Col chroma white black mix scale c = Some sh /\
                         length sh = 10%nat) colors shades /\
    length lines = (10 * length colors)%nat /\
    forall e i c sh, colors !! e = Some c -> shades !! e = Some sh -> (i < 10)%nat ->
      exists col, sh !! i = Some col /\
        lines !! (10 * e + i)%nat =
          Some ("  --" +:+ name c +:+ "-" +:+ pretty i +:+ ": " +:+ css_hsl col +:+ ";").
Proof.
  induction 1 as [|c rest Hc Hrest IH].
  - exists [], []. split; [reflexivity|]. split; [constructor|]. split; [reflexivity|].
    intros e i c sh Hce. rewrite lookup_nil in Hce. discriminate.
  - destruct IH as (lines & shades & E & Hf & Hl & Hlk).
    destruct (getShades_length Hex Col chroma white black mix scale c Hc)
      as [sh [Es Hsl]].
    exists (imap (decl_line Col css_hsl (name c)) sh ++ lines), (sh :: shades).
    split; [simpl; rewrite Es, E; reflexivity|].
    split; [constructor; [split; assumption | exact Hf]|].
    split; [rewrite length_app, length_imap, Hsl, Hl; simpl; lia|].
    intros e i c' sh' Hce Hse Hi. destruct e as [|e].
    + simpl in Hce, Hse. injection Hce as Hce. injection Hse as Hse. subst c' sh'.
      destruct (sh !! i) as [col|] eqn:Ei.
      2: { apply lookup_ge_None_1 in Ei. lia. }
      exists col. split; [reflexivity|].
      replace (10 * 0 + i)%nat with i by lia.
      rewrite lookup_app_l by (rewrite length_imap; lia).
      rewrite list_lookup_imap, Ei. reflexivity.
    + simpl in Hce, Hse.
      destruct (Hlk e i c' sh' Hce Hse Hi) as [col [Hcol Hline]].
      exists col. split; [exact Hcol|].
      rewrite lookup_app_r by (rewrite length_imap; lia).
      rewrite length_imap, Hsl.
      replace (10 * S e + i - 10)%nat with (10 * e + i)%nat by lia. exact Hline.
Qed.

(** C9.  For a palette of [k] entries (each with [targetIndex] in [0, 9]),
    the export text is [":root {"], a newline, the [10 * k] declaration
    lines joined by newlines, a newline and ["}"]; line [10 * e + i] is
    ["  --<name>-<i>: <cssHsl>;"] for entry [e] and its shade [i]. *)
Theorem CssVariablesOutput_shape (Hex Col : Type) (chroma : Hex -> Col) (white black : Col)
    (mix : Col -> Col -> R -> Col) (scale : Col -> Col -> R -> Col)
    (css_hsl : Col -> string) (colors : list (Color Hex)) :
  Forall (fun c => (0 <= targetIndex c <= 9)%Z) colors ->
  exists lines shades,
    CssVariablesOutput Hex Col chroma white black mix scale css_hsl colors =
      Some (":root {" +:+ nl +:+ join nl lines +:+ nl +:+ "}") /\
    Forall2 (fun c sh => getShades Hex Col chroma white black mix scale c = Some sh /\
                         length sh = 10%nat) colors shades /\
    length lines = (10 * length colors)%nat /\
    forall e i c sh, colors !! e = Some c -> shades !! e = Some sh -> (i < 10)%nat ->
      exists col, sh !! i = Some col /\
        lines !! (10 * e + i)%nat =
          Some ("  --" +:+ name c +:+ "-" +:+ pretty i +:+ ": " +:+ css_hsl col +:+ ";").
Proof.
  intros Hf.
  destruct (css_lines_spec Hex Col chroma white black mix scale css_hsl colors Hf)
    as (lines & shades & E & Hsh & Hl & Hlk).
  exists lines, shades. unfold CssVariablesOutput. rewrite E.
  split; [reflexivity|]. split; [exact Hsh|]. split; [exact Hl | exact Hlk].
Qed.

Lemma CssVariablesOutput_shape_witness :
  exists (lines : list string) (shades : list (list string)),
    CssVariablesOutput string string (fun x => x) "#fff" "#000"
      (fun a _ _ => a) (fun a _ _ => a) (fun x => x) DEFAULT_COLORS =
      Some (":root {" +:+ nl +:+ join nl lines +:+ nl +:+ "}") /\
    length lines = 60%nat /\ length shades = 6%nat.
Proof.
  destruct (CssVariablesOutput_shape string string (fun x => x) "#fff" "#000"
              (fun a _ _ => a) (fun a _ _ => a) (fun x => x) DEFAULT_COLORS)
    as (lines & shades & E & Hsh & Hl & _).
  - repeat constructor; simpl; lia.
  - exists lines, shades. split; [exact E|]. split; [exact Hl|].
    apply Forall2_length in Hsh. rewrite <- Hsh. reflexivity.
Defined.

(* ================================================================== *)
(** * Further properties of [getShades], [SHADING] and the export *)

(* ------------------------------------------------------------------ *)
(** ** Which seeds [getShades] accepts *)

(** [getShades] returns ten colours whenever it returns. *)
Lemma getShades_some_length (Hex Col : Type) (chroma : Hex -> Col) (white black : Col)
    (mix : Col -> Col -> R -> Col) (scale : Col -> Col -> R -> Col) (c : Color Hex) ramp :
  getShades Hex Col chroma white black mix scale c = Some ramp -> length ramp = 10%nat.
Proof.
  unfold getShades, array_keys.
  destruct ((targetIndex c + 1 <? 0) || (4294967295 <? targetIndex c + 1))%Z eqn:E1;
    [discriminate|].
  destruct ((10 - (targetIndex c + 1) <? 0) || (4294967295 <? 10 - (targetIndex c + 1)))%Z
    eqn:E2; [discriminate|].
  apply orb_false_iff in E1 as [E1 E1']. apply orb_false_iff in E2 as [E2 E2'].
  apply Z.ltb_ge in E1, E1', E2, E2'.
  intros H. injection H as <-.
  rewrite length_app, !length_map, !length_seq. lia.
Qed.

(** [Array(targetIndex + 1)] and [Array(10 - (targetIndex + 1))] both
    exist exactly when [targetIndex] is in [-1, 9]. *)
Lemma getShades_None_iff (Hex Col : Type) (chroma : Hex -> Col) (white black : Col)
    (mix : Col -> Col -> R -> Col) (scale : Col -> Col -> R -> Col) (c : Color Hex) :
  getShades Hex Col chroma white black mix scale c = None <->
  (targetIndex c < -1 \/ 9 < targetIndex c)%Z.
Proof.
  unfold getShades, array_keys.
  destruct ((targetIndex c + 1 <? 0) || (4294967295 <? targetIndex c + 1))%Z eqn:E1.
  - apply orb_true_iff in E1.
    destruct E1 as [E1|E1]; apply Z.ltb_lt in E1; split; (reflexivity || lia).
  - apply orb_false_iff in E1 as [E1 E1']. apply Z.ltb_ge in E1, E1'.
    destruct ((10 - (targetIndex c + 1) <? 0) || (4294967295 <? 10 - (targetIndex c + 1)))%Z
      eqn:E2.
    + apply orb_true_iff in E2.
      destruct E2 as [E2|E2]; apply Z.ltb_lt in E2; split; (reflexivity || lia).
    + apply orb_false_iff in E2 as [E2 E2']. apply Z.ltb_ge in E2, E2'.
      split; [discriminate | lia].
Qed.

(** X1.  For an integer [targetIndex], [getShades] throws (a [RangeError]
    of [Array]) exactly when [targetIndex] is below -1 or above 9;
    otherwise it returns ten colours. *)
Theorem getShades_throws_iff (Hex Col : Type) (chroma : Hex -> Col) (white black : Col)
    (mix : Col -> Col -> R -> Col) (scale : Col -> Col -> R -> Col) (c : Color Hex) :
  (getShades Hex Col chroma white black mix scale c = None <->
   (targetIndex c < -1 \/ 9 < targetIndex c)%Z) /\
  (forall ramp, getShades Hex Col chroma white black mix scale c = Some ramp ->
   length ramp = 10%nat).
Proof.
  split.
  - apply getShades_None_iff.
  - apply getShades_some_length.
Qed.



(* ------------------------------------------------------------------ *)
(** ** The easing functions on the unit interval *)

Lemma SHADING_strict_mono (f : ShadingFunction) (x y : R) :
  0 <= x -> x < y -> y <= 1 -> SHADING f x < SHADING f y.
Proof.
  intros Hx Hxy Hy. pose proof PI_RGT_0 as Hpi. destruct f; simpl.
  - exact Hxy.
  - assert (cos (y * PI / 2) < cos (x * PI / 2)); [|lra].
    apply cos_decreasing_1; nra.
  - apply sin_increasing_1; nra.
  - assert (cos (y * PI) < cos (x * PI)); [|lra].
    apply cos_decreasing_1; nra.
Qed.

Lemma SHADING_unit (f : ShadingFunction) (x : R) :
  0 <= x <= 1 -> 0 <= SHADING f x <= 1.
Proof.
  intros Hx.
  destruct (Req_dec x 0) as [->|H0]; [rewrite SHADING_0; lra|].
  destruct (Req_dec x 1) as [->|H1]; [rewrite SHADING_1; lra|].
  pose proof (SHADING_strict_mono f 0 x) as A. pose proof (SHADING_strict_mono f x 1) as B.
  rewrite SHADING_0 in A. rewrite SHADING_1 in B.
  split; [left; apply A | left; apply B]; lra.
Qed.

(** X3.  On [0, 1] every easing function takes its values in [0, 1] and is
    strictly increasing. *)
Theorem SHADING_increasing (f : ShadingFunction) (x y : R) :
  0 <= x -> x < y -> y <= 1 ->
  0 <= SHADING f x /\ SHADING f x < SHADING f y /\ SHADING f y <= 1.
Proof.
  intros Hx Hxy Hy.
  pose proof (SHADING_unit f x) as A. pose proof (SHADING_unit f y) as B.
  pose proof (SHADING_strict_mono f x y Hx Hxy Hy). split; [|split]; [apply A | | apply B]; lra.
Qed.

Lemma SHADING_increasing_witness :
  0 <= 1/4 /\ 1/4 < 1/2 /\ 1/2 <= 1 /\
  0 <= SHADING easeIn (1/4) /\ SHADING easeIn (1/4) < SHADING easeIn (1/2) /\
  SHADING easeIn (1/2) <= 1.
Proof.
  split; [lra|]. split; [lra|]. split; [lra|].
  apply (SHADING_increasing easeIn (1/4) (1/2)); lra.
Defined.

(** X4.  [easeOut] is [easeIn] mirrored ([easeOut(x) = 1 - easeIn(1 - x)]),
    [easeInOut] is symmetric about the centre
    ([easeInOut(1 - x) = 1 - easeInOut(x)]), and so is [linear]. *)
Theorem SHADING_mirror (x : R) :
  SHADING easeOut x = 1 - SHADING easeIn (1 - x) /\
  SHADING easeInOut (1 - x) = 1 - SHADING easeInOut x /\
  SHADING linear (1 - x) = 1 - SHADING linear x.
Proof.
  simpl. split; [|split].
  - replace ((1 - x) * PI / 2) with (PI / 2 - x * PI / 2) by field.
    rewrite cos_shift. ring.
  - replace ((1 - x) * PI) with (- (x * PI) + PI) by ring.
    rewrite neg_cos, cos_neg. field.
  - reflexivity.
Qed.

(* ------------------------------------------------------------------ *)
(** ** A seed for the examples *)

(** The red seed of the spec's example, lab [(50, 40, 30)]. *)
Definition seed_red : Color LabModel.lab :=
  mkColor "red" (LabModel.Lab 50 40 30) 5 easeInOut (9/10) (85/100).

(* ------------------------------------------------------------------ *)
(** ** The CSS export: composition and failure *)

Lemma css_lines_app_eq (Hex Col : Type) (chroma : Hex -> Col) (white black : Col)
    (mix : Col -> Col -> R -> Col) (scale : Col -> Col -> R -> Col)
    (css_hsl : Col -> string) (a b : list (Color Hex)) :
  css_lines Hex Col chroma white black mix scale css_hsl (a ++ b) =
  match css_lines Hex Col chroma white black mix scale css_hsl a,
        css_lines Hex Col chroma white black mix scale css_hsl b with
  | Some la, Some lb => Some (la ++ lb)
  | _, _ => None
  end.
Proof.
  induction a as [|c a IH]; simpl.
  - destruct (css_lines _ _ _ _ _ _ _ _ b); reflexivity.
  - destruct (getShades Hex Col chroma white black mix scale c) as [sh|]; [|reflexivity].
    rewrite IH.
    destruct (css_lines _ _ _ _ _ _ _ _ a) as [la|]; [|reflexivity].
    destruct (css_lines _ _ _ _ _ _ _ _ b) as [lb|]; [|reflexivity].
    rewrite app_assoc. reflexivity.
Qed.

(** X7.  The declaration lines of a palette [a ++ b] are those of [a]
    followed by those of [b] (the lines of each entry depend on that entry
    only), and the export of [a ++ b] fails when either part fails. *)
Theorem css_lines_app (Hex Col : Type) (chroma : Hex -> Col) (white black : Col)
    (mix : Col -> Col -> R -> Col) (scale : Col -> Col -> R -> Col)
    (css_hsl : Col -> string) (a b : list (Color Hex)) :
  css_lines Hex Col chroma white black mix scale css_hsl (a ++ b) =
  match css_lines Hex Col chroma white black mix scale css_hsl a,
        css_lines Hex Col chroma white black mix scale css_hsl b with
  | Some la, Some lb => Some (la ++ lb)
  | _, _ => None
  end.
Proof. apply css_lines_app_eq. Qed.

Lemma css_lines_None_iff (Hex Col : Type) (chroma : Hex -> Col) (white black : Col)
    (mix : Col -> Col -> R -> Col) (scale : Col -> Col -> R -> Col)
    (css_hsl : Col -> string) (colors : list (Color Hex)) :
  css_lines Hex Col chroma white black mix scale css_hsl colors = None <->
  Exists (fun c => getShades Hex Col chroma white black mix scale c = None) colors.
Proof.
  induction colors as [|c cs IH]; simpl.
  - split; [discriminate | intros H; inversion H].
  - rewrite Exists_cons.
    destruct (getShades Hex Col chroma white black mix scale c) as [sh|].
    + destruct (css_lines _ _ _ _ _ _ _ _ cs) as [ls|].
      * split; [discriminate|]. intros [H|H]; [discriminate|]. apply IH in H. discriminate.
      * split; [intros _; right; apply IH; reflexivity | reflexivity].
    + split; [intros _; left; reflexivity | reflexivity].
Qed.

(** X8.  For a palette whose [targetIndex] values are integers, the export
    component fails (the render throws) exactly when some entry has a
    [targetIndex] below -1 or above 9: one bad entry takes the whole
    export down. *)
Theorem CssVariablesOutput_None_iff (Hex Col : Type) (chroma : Hex -> Col) (white black : Col)
    (mix : Col -> Col -> R -> Col) (scale : Col -> Col -> R -> Col)
    (css_hsl : Col -> string) (colors : list (Color Hex)) :
  CssVariablesOutput Hex Col chroma white black mix scale css_hsl colors = None <->
  Exists (fun c => (targetIndex c < -1 \/ 9 < targetIndex c)%Z) colors.
Proof.
  unfold CssVariablesOutput.
  transitivity (css_lines Hex Col chroma white black mix scale css_hsl colors = None).
  - destruct (css_lines _ _ _ _ _ _ _ _ colors); split; (discriminate || reflexivity).
  - rewrite css_lines_None_iff.
    split; intros H; (eapply Exists_impl; [exact H|]); intros c Hc;
      simpl in Hc |- *; apply (getShades_None_iff Hex Col chroma white black mix scale c);
      exact Hc.
Qed.

(** X9.  The export of an empty palette is [":root {"], two newlines and
    ["}"]. *)
Theorem CssVariablesOutput_empty (Hex Col : Type) (chroma : Hex -> Col) (white black : Col)
    (mix : Col -> Col -> R -> Col) (scale : Col -> Col -> R -> Col)
    (css_hsl : Col -> string) :
  CssVariablesOutput Hex Col chroma white black mix scale css_hsl [] =
    Some (":root {" +:+ nl +:+ nl +:+ "}").
Proof. reflexivity. Qed.

(* ------------------------------------------------------------------ *)
(** ** Successive palette updates *)

(** Two successive updates of the same entry [k] in range: the second
    copies the first's value for [a1] through JSON. *)
Lemma update_twice_same_index (h : heap) (p : positive) ss (k : nat)
    (a1 a2 : string) (v1 v2 : value) :
  Store.read_slots h p = Some ss ->
  (k < length ss)%nat -> (Z.of_nat (length ss) <= 4294967295)%Z ->
  exists h1 q1 h2 q2,
    Store.updateAttrForIndex h p (Z.of_nat k) a1 v1 = Some (h1, q1) /\
    Store.updateAttrForIndex h1 q1 (Z.of_nat k) a2 v2 = Some (h2, q2) /\
    Store.read_slots h2 q2 =
      Some (<[k := Some (Some (<[a2 := v2]> (<[a1 := Store.json_value v1]>
                   (Store.json_entry (Store.keys_of (mjoin (ss !! k)))))))]>
              (map Store.json_slot ss)).
Proof.
  intros Hr Hk Hl.
  destruct (updateAttrForIndex_in_range h p ss k a1 v1 Hr Hk Hl)
    as (h1 & q1 & E1 & _ & _ & Hr1).
  destruct (updateAttrForIndex_in_range h1 q1 _ k a2 v2 Hr1
              ltac:(rewrite length_insert, length_map; exact Hk)
              ltac:(rewrite length_insert, length_map; exact Hl))
    as (h2 & q2 & E2 & _ & _ & Hr2).
  exists h1, q1, h2, q2. split; [exact E1|]. split; [exact E2|].
  rewrite Hr2, list_lookup_insert_eq by (rewrite length_map; exact Hk). simpl.
  rewrite JsonFacts.map_insert_list, JsonFacts.json_slots_idem, list_insert_insert_eq.
  rewrite JsonFacts.json_entry_insert, JsonFacts.json_entry_idem. reflexivity.
Qed.

(** An update of entry [k1], then one of another entry [k2], both in
    range. *)
Lemma update_two_indices (h : heap) (p : positive) ss (k1 k2 : nat)
    (a1 a2 : string) (v1 v2 : value) :
  Store.read_slots h p = Some ss -> k1 <> k2 ->
  (k1 < length ss)%nat -> (k2 < length ss)%nat ->
  (Z.of_nat (length ss) <= 4294967295)%Z ->
  exists h1 q1 h2 q2,
    Store.updateAttrForIndex h p (Z.of_nat k1) a1 v1 = Some (h1, q1) /\
    Store.updateAttrForIndex h1 q1 (Z.of_nat k2) a2 v2 = Some (h2, q2) /\
    Store.read_slots h2 q2 =
      Some (<[k2 := Some (Some (<[a2 := v2]>
                      (Store.json_entry (Store.keys_of (mjoin (ss !! k2))))))]>
            (<[k1 := Some (Some (<[a1 := Store.json_value v1]>
                      (Store.json_entry (Store.keys_of (mjoin (ss !! k1))))))]>
              (map Store.json_slot ss))).
Proof.
  intros Hr Hne H1 H2 Hl.
  destruct (updateAttrForIndex_in_range h p ss k1 a1 v1 Hr H1 Hl)
    as (h1 & q1 & E1 & _ & _ & Hr1).
  destruct (updateAttrForIndex_in_range h1 q1 _ k2 a2 v2 Hr1
              ltac:(rewrite length_insert, length_map; exact H2)
              ltac:(rewrite length_insert, length_map; exact Hl))
    as (h2 & q2 & E2 & _ & _ & Hr2).
  exists h1, q1, h2, q2. split; [exact E1|]. split; [exact E2|].
  rewrite Hr2, list_lookup_insert_ne by congruence.
  rewrite JsonFacts.lookup_map, JsonFacts.keys_of_json, JsonFacts.json_entry_idem.
  rewrite JsonFacts.map_insert_list, JsonFacts.json_slots_idem. simpl.
  rewrite JsonFacts.json_entry_insert, JsonFacts.json_entry_idem. reflexivity.
Qed.

(** X10.  Two successive edits of the same field of the same entry in
    range (the second on the palette the first produced) leave the
    palette a single edit with the second value gives: the last write
    wins. *)
Theorem updateAttrForIndex_last_write_wins (h : heap) (p : positive) ss (k : nat)
    (attr : string) (v1 v2 : value) :
  Store.read_slots h p = Some ss ->
  (k < length ss)%nat -> (Z.of_nat (length ss) <= 4294967295)%Z ->
  exists h1 q1 h2 q2 h3 q3,
    Store.updateAttrForIndex h p (Z.of_nat k) attr v1 = Some (h1, q1) /\
    Store.updateAttrForIndex h1 q1 (Z.of_nat k) attr v2 = Some (h2, q2) /\
    Store.updateAttrForIndex h p (Z.of_nat k) attr v2 = Some (h3, q3) /\
    Store.read_slots h2 q2 = Store.read_slots h3 q3.
Proof.
  intros Hr Hk Hl.
  destruct (update_twice_same_index h p ss k attr attr v1 v2 Hr Hk Hl)
    as (h1 & q1 & h2 & q2 & E1 & E2 & Hr2).
  destruct (updateAttrForIndex_in_range h p ss k attr v2 Hr Hk Hl)
    as (h3 & q3 & E3 & _ & _ & Hr3).
  exists h1, q1, h2, q2, h3, q3. split; [exact E1|]. split; [exact E2|].
  split; [exact E3|]. rewrite Hr2, Hr3, insert_insert_eq. reflexivity.
Qed.

Lemma updateAttrForIndex_last_write_wins_witness :
  exists h1 q1 h2 q2 h3 q3,
    Store.updateAttrForIndex default_store.1 default_store.2 (Z.of_nat 2) "hex"
      (VStr "#000000") = Some (h1, q1) /\
    Store.updateAttrForIndex h1 q1 (Z.of_nat 2) "hex" (VStr "#ffffff") = Some (h2, q2) /\
    Store.updateAttrForIndex default_store.1 default_store.2 (Z.of_nat 2) "hex"
      (VStr "#ffffff") = Some (h3, q3) /\
    Store.read_slots h2 q2 = Store.read_slots h3 q3.
Proof.
  apply (updateAttrForIndex_last_write_wins default_store.1 default_store.2 default_slots);
    [reflexivity | simpl; lia | simpl; lia].
Defined.

(** X11.  Two successive edits of different fields of the same entry in
    range commute when neither value is [NaN] or an infinity (values the
    JSON round trip keeps): either order leaves the same palette. *)
Theorem updateAttrForIndex_fields_commute (h : heap) (p : positive) ss (k : nat)
    (a1 a2 : string) (v1 v2 : value) :
  Store.read_slots h p = Some ss -> a1 <> a2 ->
  (k < length ss)%nat -> (Z.of_nat (length ss) <= 4294967295)%Z ->
  Store.json_safe_value v1 = true -> Store.json_safe_value v2 = true ->
  exists h1 q1 h2 q2 h3 q3 h4 q4,
    Store.updateAttrForIndex h p (Z.of_nat k) a1 v1 = Some (h1, q1) /\
    Store.updateAttrForIndex h1 q1 (Z.of_nat k) a2 v2 = Some (h2, q2) /\
    Store.updateAttrForIndex h p (Z.of_nat k) a2 v2 = Some (h3, q3) /\
    Store.updateAttrForIndex h3 q3 (Z.of_nat k) a1 v1 = Some (h4, q4) /\
    Store.read_slots h2 q2 = Store.read_slots h4 q4.
Proof.
  intros Hr Hne Hk Hl S1 S2.
  destruct (update_twice_same_index h p ss k a1 a2 v1 v2 Hr Hk Hl)
    as (h1 & q1 & h2 & q2 & E1 & E2 & Hr2).
  destruct (update_twice_same_index h p ss k a2 a1 v2 v1 Hr Hk Hl)
    as (h3 & q3 & h4 & q4 & E3 & E4 & Hr4).
  exists h1, q1, h2, q2, h3, q3, h4, q4.
  do 4 (split; [assumption|]).
  rewrite Hr2, Hr4, !JsonFacts.json_value_safe by assumption.
  rewrite insert_insert_ne by congruence. reflexivity.
Qed.

Lemma updateAttrForIndex_fields_commute_witness :
  exists h1 q1 h2 q2 h3 q3 h4 q4,
    Store.updateAttrForIndex default_store.1 default_store.2 (Z.of_nat 0) "name"
      (VStr "charcoal") = Some (h1, q1) /\
    Store.updateAttrForIndex h1 q1 (Z.of_nat 0) "hex" (VStr "#222222") = Some (h2, q2) /\
    Store.updateAttrForIndex default_store.1 default_store.2 (Z.of_nat 0) "hex"
      (VStr "#222222") = Some (h3, q3) /\
    Store.updateAttrForIndex h3 q3 (Z.of_nat 0) "name" (VStr "charcoal") = Some (h4, q4) /\
    Store.read_slots h2 q2 = Store.read_slots h4 q4.
Proof.
  apply (updateAttrForIndex_fields_commute default_store.1 default_store.2 default_slots);
    [reflexivity | discriminate | simpl; lia | simpl; lia | reflexivity | reflexivity].
Defined.

(** X12.  Edits of two different entries in range commute when neither
    value is [NaN] or an infinity: either order leaves the same
    palette. *)
Theorem updateAttrForIndex_indices_commute (h : heap) (p : positive) ss (k1 k2 : nat)
    (a1 a2 : string) (v1 v2 : value) :
  Store.read_slots h p = Some ss -> k1 <> k2 ->
  (k1 < length ss)%nat -> (k2 < length ss)%nat ->
  (Z.of_nat (length ss) <= 4294967295)%Z ->
  Store.json_safe_value v1 = true -> Store.json_safe_value v2 = true ->
  exists h1 q1 h2 q2 h3 q3 h4 q4,
    Store.updateAttrForIndex h p (Z.of_nat k1) a1 v1 = Some (h1, q1) /\
    Store.updateAttrForIndex h1 q1 (Z.of_nat k2) a2 v2 = Some (h2, q2) /\
    Store.updateAttrForIndex h p (Z.of_nat k2) a2 v2 = Some (h3, q3) /\
    Store.updateAttrForIndex h3 q3 (Z.of_nat k1) a1 v1 = Some (h4, q4) /\
    Store.read_slots h2 q2 = Store.read_slots h4 q4.
Proof.
  intros Hr Hne H1 H2 Hl S1 S2.
  destruct (update_two_indices h p ss k1 k2 a1 a2 v1 v2 Hr Hne H1 H2 Hl)
    as (h1 & q1 & h2 & q2 & E1 & E2 & Hr2).
  destruct (update_two_indices h p ss k2 k1 a2 a1 v2 v1 Hr (not_eq_sym Hne) H2 H1 Hl)
    as (h3 & q3 & h4 & q4 & E3 & E4 & Hr4).
  exists h1, q1, h2, q2, h3, q3, h4, q4.
  do 4 (split; [assumption|]).
  rewrite Hr2, Hr4, !JsonFacts.json_value_safe by assumption.
  rewrite list_insert_insert_ne by congruence. reflexivity.
Qed.

Lemma updateAttrForIndex_indices_commute_witness :
  exists h1 q1 h2 q2 h3 q3 h4 q4,
    Store.updateAttrForIndex default_store.1 default_store.2 (Z.of_nat 1) "name" (VStr "gold")
      = Some (h1, q1) /\
    Store.updateAttrForIndex h1 q1 (Z.of_nat 4) "name" (VStr "navy") = Some (h2, q2) /\
    Store.updateAttrForIndex default_store.1 default_store.2 (Z.of_nat 4) "name" (VStr "navy")
      = Some (h3, q3) /\
    Store.updateAttrForIndex h3 q3 (Z.of_nat 1) "name" (VStr "gold") = Some (h4, q4) /\
    Store.read_slots h2 q2 = Store.read_slots h4 q4.
Proof.
  apply (updateAttrForIndex_indices_commute default_store.1 default_store.2 default_slots);
    [reflexivity | lia | simpl; lia | simpl; lia | simpl; lia | reflexivity | reflexivity].
Defined.

(* ------------------------------------------------------------------ *)
(** ** What a mix-ratio edit stores *)

(** X13.  A mix-ratio edit of an entry in range stores what [Number] makes
    of the text whenever that is a non-zero number or an infinity, with no
    range check (a ratio of 1.5 or -0.5 is stored as such), and 0.9 when
    the text is not a number. *)
Theorem onRatioChange_stores (Number : string -> jsnum) (attr : string) (h : heap)
    (p : positive) rs (k : nat) (s : string) :
  Store.read_palette h p = Some rs -> (k < length rs)%nat ->
  (Z.of_nat (length rs) <= 4294967295)%Z ->
  exists h' q rs' e, onRatioChange Number attr h p (Z.of_nat k) s = Some (h', q) /\
    Store.read_palette h' q = Some rs' /\ rs' !! k = Some (Some e) /\
    (forall r, Number s = Num r -> r <> 0 -> e !! attr = Some (VNum (Num r))) /\
    (forall b, Number s = Infinity b -> e !! attr = Some (VNum (Infinity b))) /\
    (Number s = NaN -> e !! attr = Some (VNum (Num (9/10)))).
Proof.
  intros Hr Hk Hl. unfold onRatioChange.
  destruct (updateAttrForIndex_entry h p rs k attr (VNum (ratio_input Number s)) Hr Hk Hl)
    as (h' & q & rs' & e & E & Hr' & He & Ha).
  exists h', q, rs', e. split; [exact E|]. split; [exact Hr'|]. split; [exact He|].
  rewrite Ha. unfold ratio_input, js_or, truthy.
  split; [|split].
  - intros r Hn Hr0. rewrite Hn.
    destruct (Req_EM_T r 0); [contradiction | reflexivity].
  - intros b Hn. rewrite Hn. reflexivity.
  - intros Hn. rewrite Hn. reflexivity.
Qed.

Lemma onRatioChange_stores_witness :
  exists h' q rs' e,
    onRatioChange js_Number "whiteMixRatio" default_store.1 default_store.2 (Z.of_nat 1) "1.5"
      = Some (h', q) /\
    Store.read_palette h' q = Some rs' /\ rs' !! 1%nat = Some (Some e) /\
    e !! "whiteMixRatio" = Some (VNum (Num (3/2))).
Proof.
  destruct (onRatioChange_stores js_Number "whiteMixRatio" default_store.1 default_store.2
              (map (fun c => Some (entry_obj c)) DEFAULT_COLORS) 1 "1.5")
    as (h' & q & rs' & e & E & Hr & He & Hnum & _ & _).
  - reflexivity.
  - simpl. lia.
  - simpl. lia.
  - exists h', q, rs', e. split; [exact E|]. split; [exact Hr|]. split; [exact He|].
    rewrite (Hnum (1 + 5 / 10)).
    + f_equal. f_equal. f_equal. field.
    + reflexivity.
    + lra.
Defined.

(* ------------------------------------------------------------------ *)
(** ** The text colour of the swatches ([Shades], lines 242-262) *)

Section Swatch.
(** The relative luminance chroma-js gives a colour ([color.luminance()]),
    a number in [0, 1]. *)
Variables (Col : Type) (luminance : Col -> R).
Hypothesis luminance_nonneg : forall c, 0 <= luminance c.

(** [chroma.contrast(a, b)]: the WCAG contrast ratio. *)
Definition contrast (a b : Col) : R :=
  let l1 := luminance a in
  let l2 := luminance b in
  if Rlt_dec l2 l1 then (l1 + 5/100) / (l2 + 5/100) else (l2 + 5/100) / (l1 + 5/100).

(** The swatches [Shades] renders: each colour of the ramp as background,
    with its text colour [fontColor] (the rendered label is
    [formatHslStr(color)]). *)
Definition Shades (colors : list Col) : list (Col * Col) :=
  match head colors, last colors with
  | Some brightest, Some darkest =>
    map (fun color =>
      (color, if Rge_dec (contrast brightest color) (contrast darkest color)
              then brightest else darkest)) colors
  | _, _ => []
  end.

Lemma contrast_self (c : Col) : contrast c c = 1.
Proof.
  unfold contrast. pose proof (luminance_nonneg c).
  destruct (Rlt_dec (luminance c) (luminance c)); [lra|]. field. lra.
Qed.

Lemma one_le_div (x y : R) : 0 < y -> y <= x -> 1 <= x / y.
Proof.
  intros Hy Hxy. apply (Rmult_le_reg_r y); [exact Hy|].
  unfold Rdiv. rewrite Rmult_assoc, Rinv_l by lra. lra.
Qed.

Lemma contrast_ge_1 (a b : Col) : 1 <= contrast a b.
Proof.
  unfold contrast. pose proof (luminance_nonneg a). pose proof (luminance_nonneg b).
  destruct (Rlt_dec (luminance b) (luminance a)); apply one_le_div; lra.
Qed.

Lemma contrast_eq_1 (a b : Col) : contrast a b = 1 -> luminance a = luminance b.
Proof.
  unfold contrast. pose proof (luminance_nonneg a). pose proof (luminance_nonneg b).
  destruct (Rlt_dec (luminance b) (luminance a)); intros Hc.
  - apply (f_equal (fun x => x * (luminance b + 5/100))) in Hc.
    unfold Rdiv in Hc. rewrite Rmult_assoc, Rinv_l in Hc by lra. lra.
  - apply (f_equal (fun x => x * (luminance a + 5/100))) in Hc.
    unfold Rdiv in Hc. rewrite Rmult_assoc, Rinv_l in Hc by lra. lra.
Qed.

Lemma last_map {A B} (f : A -> B) (l : list A) : last (map f l) = option_map f (last l).
Proof.
  induction l as [|x l IH]; [reflexivity|].
  destruct l as [|y l]; [reflexivity|].
  change (last (map f (x :: y :: l))) with (last (map f (y :: l))).
  rewrite IH. reflexivity.
Qed.
End Swatch.

(** X14.  On the darkest swatch the text is always the brightest shade; on
    the brightest swatch it is the darkest shade, unless the two ends have
    the same luminance (then the brightest shade again). *)
Theorem Shades_end_fonts (Col : Type) (luminance : Col -> R)
    (Hl : forall c, 0 <= luminance c) (colors : list Col) (b d : Col) :
  head colors = Some b -> last colors = Some d ->
  last (Shades Col luminance colors) = Some (d, b) /\
  head (Shades Col luminance colors) =
    Some (b, if Req_EM_T (luminance b) (luminance d) then b else d).
Proof.
  intros Hb Hd. unfold Shades. rewrite Hb, Hd. split.
  - rewrite last_map, Hd. simpl.
    rewrite (contrast_self Col luminance Hl d).
    destruct (Rge_dec (contrast Col luminance b d) 1) as [_|Hn]; [reflexivity|].
    pose proof (contrast_ge_1 Col luminance Hl b d). lra.
  - destruct colors as [|c rest]; [discriminate|]. injection Hb as ->. simpl.
    rewrite (contrast_self Col luminance Hl b).
    pose proof (contrast_ge_1 Col luminance Hl d b) as G.
    destruct (Req_EM_T (luminance b) (luminance d)) as [E|E].
    + destruct (Rge_dec 1 (contrast Col luminance d b)) as [_|Hn]; [reflexivity|].
      exfalso. unfold contrast in Hn. rewrite E in Hn.
      destruct (Rlt_dec (luminance d) (luminance d)); [lra|].
      rewrite Rdiv_diag in Hn; [lra|]. pose proof (Hl d). lra.
    + destruct (Rge_dec 1 (contrast Col luminance d b)) as [Hg|_]; [|reflexivity].
      exfalso. apply E. symmetry. apply (contrast_eq_1 Col luminance Hl). lra.
Qed.

Lemma Shades_end_fonts_witness :
  last (Shades nat INR [3; 2; 0]%nat) = Some (0%nat, 3%nat) /\
  head (Shades nat INR [3; 2; 0]%nat) = Some (3%nat, 0%nat).
Proof.
  destruct (Shades_end_fonts nat INR pos_INR [3; 2; 0]%nat 3%nat 0%nat eq_refl eq_refl) as [H1 H2].
  split; [exact H1|]. rewrite H2.
  destruct (Req_EM_T (INR 3%nat) (INR 0%nat)) as [E|_]; [|reflexivity].
  exfalso. apply INR_eq in E. discriminate.
Defined.

(* ------------------------------------------------------------------ *)
(** ** The swatch label [formatHslStr] (lines 234-240) *)

Section HslLabel.
(** [color.hsl()] (the hue is [NaN] for a grey) and [x.toFixed(2)]. *)
Variables (Col : Type) (hsl : Col -> jsnum * jsnum * jsnum) (toFixed2 : jsnum -> string).

(** The template literal, then [.trim()] (on the ASCII white space). *)
Definition formatHslStr (color : Col) : string :=
  let '(h, s, l) := hsl color in
  String.string_of_list_ascii (trim (String.list_ascii_of_string
    (nl +:+ "hsl(" +:+ toFixed2 h +:+ nl +:+ "    " +:+ toFixed2 s +:+ "%" +:+ nl +:+
     "    " +:+ toFixed2 l +:+ "%)"))).
End HslLabel.

Lemma list_ascii_app (a b : string) :
  String.list_ascii_of_string (a +:+ b) =
  String.list_ascii_of_string a ++ String.list_ascii_of_string b.
Proof. induction a as [|c a IH]; simpl; [reflexivity | rewrite IH; reflexivity]. Qed.

Lemma list_ascii_app_last (a b : string) Y c :
  String.list_ascii_of_string b = Y ++ [c] ->
  String.list_ascii_of_string (a +:+ b) = (String.list_ascii_of_string a ++ Y) ++ [c].
Proof. intros H. rewrite list_ascii_app, H, app_assoc. reflexivity. Qed.

(** [trim] leaves a text that starts and ends with non-blank characters
    as it is. *)
Lemma trim_nonblank_ends (c1 c2 : Ascii.ascii) (X Y : list Ascii.ascii) :
  is_ws c1 = false -> is_ws c2 = false -> c1 :: X = Y ++ [c2] ->
  trim (c1 :: X) = c1 :: X.
Proof.
  intros H1 H2 E. unfold trim. simpl drop_ws at 2. rewrite H1.
  rewrite E, rev_app_distr. simpl. rewrite H2. simpl.
  rewrite rev_involutive. reflexivity.
Qed.

Lemma trim_ws_cons (c : Ascii.ascii) (X : list Ascii.ascii) :
  is_ws c = true -> trim (c :: X) = trim X.
Proof. intros H. unfold trim. simpl. rewrite H. reflexivity. Qed.

(** X15.  The template of [formatHslStr] starts with a newline followed by
    ["h"] and ends with ["%)"]; the [toFixed] texts sit strictly inside
    it.  So [.trim()], which only strips white space at the two ends,
    removes exactly the leading newline, whatever [toFixed] returns: the
    label is ["hsl(<h>"], ["    <s>%"] and ["    <l>%)"] on three lines. *)
Theorem formatHslStr_eq (Col : Type) (hsl : Col -> jsnum * jsnum * jsnum)
    (toFixed2 : jsnum -> string) (color : Col) :
  formatHslStr Col hsl toFixed2 color =
    let '(h, s, l) := hsl color in
    "hsl(" +:+ toFixed2 h +:+ nl +:+ "    " +:+ toFixed2 s +:+ "%" +:+ nl +:+
    "    " +:+ toFixed2 l +:+ "%)".
Proof.
  unfold formatHslStr. destruct (hsl color) as [[h s] l].
  set (T := "hsl(" +:+ toFixed2 h +:+ nl +:+ "    " +:+ toFixed2 s +:+ "%" +:+ nl +:+
            "    " +:+ toFixed2 l +:+ "%)").
  change (nl +:+ T) with (String (Ascii.ascii_of_nat 10) T).
  change (String.list_ascii_of_string (String (Ascii.ascii_of_nat 10) T))
    with (Ascii.ascii_of_nat 10 :: String.list_ascii_of_string T).
  rewrite trim_ws_cons by reflexivity.
  assert (HT : exists X, String.list_ascii_of_string T = Ascii.ascii_of_nat 104 :: X)
    by (eexists; reflexivity).
  destruct HT as [X HX].
  assert (HY : exists Y, String.list_ascii_of_string T = Y ++ [Ascii.ascii_of_nat 41]).
  { eexists. unfold T.
    do 9 apply list_ascii_app_last.
    change (String.list_ascii_of_string "%)") with ([Ascii.ascii_of_nat 37] ++ [Ascii.ascii_of_nat 41]).
    reflexivity. }
  destruct HY as [Y HY].
  rewrite HX. rewrite trim_nonblank_ends with (c2 := Ascii.ascii_of_nat 41) (Y := Y).
  - rewrite <- HX. apply String.string_of_list_ascii_of_string.
  - reflexivity.
  - reflexivity.
  - rewrite <- HX. exact HY.
Qed.

(* ------------------------------------------------------------------ *)
(** ** The keys and element ids of the pickers (lines 91-104, 136-140) *)

(** [`${i}-${color.name}`]: the key and id of picker [i]. *)
Definition picker_id (i : nat) (nm : string) : string := pretty i +:+ "-" +:+ nm.

(** The inputs of a picker that carry an id. *)
Inductive PickerField := FName | FHex | FShadingFunction | FWhiteMixRatio | FBlackMixRatio.

Definition field_suffix (f : PickerField) : string :=
  match f with
  | FName => "-name"
  | FHex => "-hex"
  | FShadingFunction => "-shading-function"
  | FWhiteMixRatio => "-white-mix-ratio"
  | FBlackMixRatio => "-black-mix-ratio"
  end.

(** [nameInputId], [hexInputId], ...: [`${id}-name`] and so on. *)
Definition input_id (i : nat) (nm : string) (f : PickerField) : string :=
  picker_id i nm +:+ field_suffix f.

Definition is_digit (c : Ascii.ascii) : bool :=
  ((48 <=? Ascii.nat_of_ascii c) && (Ascii.nat_of_ascii c <=? 57))%nat.

Fixpoint all_digits (s : string) : Prop :=
  match s with
  | EmptyString => True
  | String c s' => is_digit c = true /\ all_digits s'
  end.

Lemma pretty_N_char_digit (x : N) : is_digit (pretty_N_char x) = true.
Proof. unfold pretty_N_char. repeat case_match; reflexivity. Qed.

Lemma pretty_N_go_digits (x : N) (s : string) :
  all_digits s -> all_digits (pretty_N_go x s).
Proof.
  revert s. induction (N.lt_wf_0 x) as [x _ IH]; intros s Hs.
  destruct (decide (x = 0%N)) as [->|Hx]; [rewrite pretty_N_go_0; exact Hs|].
  rewrite pretty_N_go_step by lia. apply IH.
  - apply N.div_lt; lia.
  - simpl. split; [apply pretty_N_char_digit | exact Hs].
Qed.

Lemma pretty_nat_digits (n : nat) : all_digits (pretty n).
Proof.
  change (pretty n) with (pretty (N.of_nat n)). unfold pretty at 1, pretty_N.
  case_decide.
  - simpl. split; [reflexivity | exact I].
  - apply pretty_N_go_digits. exact I.
Qed.

Lemma digits_dash_prefix (a b r1 r2 : string) :
  all_digits a -> all_digits b -> a +:+ "-" +:+ r1 = b +:+ "-" +:+ r2 -> a = b.
Proof.
  revert b. induction a as [|c a IH]; intros [|d b] Ha Hb E; simpl in *.
  - reflexivity.
  - injection E as Ed _. subst d. destruct Hb as [Hd _]. discriminate Hd.
  - injection E as Ec _. subst c. destruct Ha as [Hc _]. discriminate Hc.
  - injection E as -> E. f_equal. apply IH; tauto.
Qed.

Lemma string_app_assoc (a b c : string) : (a +:+ b) +:+ c = a +:+ (b +:+ c).
Proof. induction a as [|x a IH]; [reflexivity | exact (f_equal (String x) IH)]. Qed.

(** X16.  The key and id [`${i}-${name}`] of a picker determine its position
    [i], whatever the names (equal names included), and the id of each
    input of the pickers determines both the picker and the input: no two
    pickers share a key and no two inputs share an id, so each [label for]
    names one input. *)
Theorem ColorPickers_ids_unique (names : list string) (i j : nat) (a b : string)
    (f g : PickerField) :
  names !! i = Some a -> names !! j = Some b ->
  (picker_id i a = picker_id j b -> i = j) /\
  (input_id i a f = input_id j b g -> i = j /\ f = g).
Proof.
  intros Ha Hb.
  assert (Hkey : forall r1 r2, pretty i +:+ "-" +:+ r1 = pretty j +:+ "-" +:+ r2 -> i = j).
  { intros r1 r2 E. apply (inj pretty).
    apply (digits_dash_prefix _ _ r1 r2); [apply pretty_nat_digits | apply pretty_nat_digits | exact E]. }
  split.
  - unfold picker_id. apply Hkey.
  - unfold input_id, picker_id. rewrite !string_app_assoc. intros E.
    assert (i = j) as <- by (eapply Hkey; exact E).
    split; [reflexivity|].
    rewrite Ha in Hb. injection Hb as <-.
    apply (inj (String.append (pretty i))) in E.
    apply (inj (String.append "-")) in E.
    apply (inj (String.append a)) in E.
    destruct f, g; (reflexivity || discriminate E).
Qed.

Lemma ColorPickers_ids_unique_witness :
  input_id 2 "red" FHex = input_id 2 "red" FHex /\ 2%nat = 2%nat /\ FHex = FHex.
Proof.
  split; [reflexivity|].
  apply (ColorPickers_ids_unique (map name DEFAULT_COLORS) 2 2 "red" "red" FHex FHex
           eq_refl eq_refl).
  reflexivity.
Defined.

(* ------------------------------------------------------------------ *)
(** ** The first entry of the ramp *)

(** X5.  In the LAB model, for every [targetIndex] in [0, 9] the first
    entry of the ramp is exactly the light end
    [mix(seed, WHITE, whiteMixRatio)] (every easing function maps 0 to 0). *)
Theorem shades_first_is_light (c : Color LabModel.lab) :
  (0 <= targetIndex c <= 9)%Z ->
  exists ramp, LabModel.shades c = Some ramp /\
    nth_error ramp 0 = Some (LabModel.mix (hex c) LabModel.white (whiteMixRatio c)).
Proof.
  intros Ht. destruct (shades_first c Ht) as (ramp & E & _ & H0).
  exists ramp. split; [exact E | exact H0].
Qed.

Lemma shades_first_is_light_witness :
  exists ramp, LabModel.shades seed_red = Some ramp /\
    nth_error ramp 0 = Some (LabModel.mix (LabModel.Lab 50 40 30) LabModel.white (9/10)).
Proof. apply (shades_first_is_light seed_red). simpl. lia. Defined.
